(** * game_token.py: tokens, power-ups and bullets

    A shallow embedding of [src/game_token.py] and the properties its
    specification states about it.

    Conventions of the embedding.
    - Python objects that are shared and mutated in place (tokens, enemies)
      live in a store indexed by references; lists hold references, and
      [list.remove] compares by identity, as Python does for classes that
      define no [__eq__].
    - A method that mutates its arguments is a computation in a small
      state-and-exception monad: an exception keeps the state reached when
      it was raised.
    - Coordinates that the source annotates as [float] are exact rationals
      ([Q]) wherever only the shape of the computation matters; [int] is
      Python's truncation toward zero.  Where the sums themselves matter
      (the position after several updates), module [Binary64] has the
      bullet with binary64 floats and their rounding.
    - [pygame.time.get_ticks()] is an input of the methods that read it. *)

From Stdlib Require Import ZArith QArith Lia List Bool.
From Stdlib Require Import PrimFloat SpecFloat FloatOps.
From stdpp Require Import base option list gmap strings.

Import ListNotations.
Local Open Scope Z_scope.

(** ** Exceptions and outcomes *)

Inductive exn : Type :=
| ValueError   (* list.remove(x): x not in list *)
| TypeError    (* int - None *)
| KeyError.    (* dict[key]: key missing *)

Inductive outcome (A : Type) : Type :=
| Ret (a : A)
| Raise (e : exn).
Arguments Ret {A} a.
Arguments Raise {A} e.

(** State with exceptions; the state survives a raise. *)
Definition M (S A : Type) : Type := S -> S * outcome A.

Definition ret {S A} (a : A) : M S A := fun s => (s, Ret a).
Definition raise {S A} (e : exn) : M S A := fun s => (s, Raise e).
Definition bind {S A B} (m : M S A) (k : A -> M S B) : M S B :=
  fun s => match m s with
           | (s', Ret a) => k a s'
           | (s', Raise e) => (s', Raise e)
           end.
Definition gets {S A} (f : S -> A) : M S A := fun s => (s, Ret (f s)).
Definition modify {S} (f : S -> S) : M S unit := fun s => (f s, Ret tt).

Declare Scope py_scope.
Delimit Scope py_scope with py.
Notation "x <- m ;; k" := (bind m (fun x => k))
  (at level 100, m at next level, right associativity) : py_scope.
Notation "m ;; k" := (bind m (fun _ => k))
  (at level 100, right associativity) : py_scope.

(** ** pygame.Rect *)

(** Modelled from pygame's documentation: a [Rect] is [(x, y, w, h)] over
    integers. *)
Record Rect : Type := mkRect {
  rect_x : Z;
  rect_y : Z;
  rect_w : Z;
  rect_h : Z
}.

(** [Rect.collidepoint]: the left and top edges are inside, the right and
    bottom edges are outside. *)
Definition collidepoint (r : Rect) (p : Z * Z) : bool :=
  (rect_x r <=? fst p) && (fst p <? rect_x r + rect_w r) &&
  (rect_y r <=? snd p) && (snd p <? rect_y r + rect_h r).

(** [Rect.center]: C integer division of the size. *)
Definition center (r : Rect) : Z * Z :=
  (rect_x r + rect_w r ÷ 2, rect_y r + rect_h r ÷ 2).

(** Python's [int(x)] on a number: truncation toward zero. *)
Definition int (q : Q) : Z := Qnum q ÷ Z.pos (Qden q).

(** pygame converts a float coordinate to a C int by a cast, which
    truncates, before the point-in-rect test. *)
Definition collidepoint_xy (r : Rect) (x y : Q) : bool :=
  collidepoint r (int x, int y).

(** ** Python lists of references *)

Definition ref : Type := nat.

Module PyList.
(** [l.remove(x)]: drops the first element equal to [x]; [None] stands
    for the [ValueError] raised when there is none. *)
Fixpoint remove (x : ref) (l : list ref) : option (list ref) :=
  match l with
  | [] => None
  | y :: l' =>
      if Nat.eqb y x then Some l'
      else match remove x l' with
           | Some r => Some (y :: r)
           | None => None
           end
  end.
End PyList.

(** ** Tokens *)

Inductive PowerUp : Type :=
| PUSDoubleShootingSpeed
| PUDoubleMovementSpeed
| PUDoubleScore
| PUPiercingAmmo.

Inductive TokenClass : Type :=
| ScoreToken
| AmmoToken
| PowerUpToken (k : PowerUp).

(** [__str__] of the four power-up classes. *)
Definition PowerUp_str (k : PowerUp) : string :=
  match k with
  | PUSDoubleShootingSpeed => "DoubleShootingSpeed"
  | PUDoubleMovementSpeed => "DoubleMovementSpeed"
  | PUDoubleScore => "DoubleScore"
  | PUPiercingAmmo => "PiercingAmmo"
  end.

(** A token object.  [start_time] is an attribute of power-up tokens only;
    the other classes never read it. *)
Record Token : Type := mkToken {
  tok_class : TokenClass;
  tok_x : Q;
  tok_y : Q;
  tok_rect : Rect;
  start_time : option Z
}.

(** [Token.__init__]; [img_w], [img_h] are the size of the loaded image,
    whose [get_rect()] sits at the origin before it is moved. *)
Definition Token_init (c : TokenClass) (location : Q * Q) (img_w img_h : Z)
  : Token :=
  {| tok_class := c;
     tok_x := fst location;
     tok_y := snd location;
     tok_rect := mkRect (int (fst location)) (int (snd location)) img_w img_h;
     start_time := None |}.

Definition set_start_time (t : Z) (T : Token) : Token :=
  {| tok_class := tok_class T; tok_x := tok_x T; tok_y := tok_y T;
     tok_rect := tok_rect T; start_time := Some t |}.

(** ** The player, as this module uses it *)

(** Modelled from the spec: [UserPlayer] lives in [character.py], which is
    not part of the sources.  The spec lists what this module needs of it:
    [rect.center], [add_score(int)], [add_ammo(int)], the nullable
    reference [power_up] and the setter [set_power_up(token)]. *)
Record UserPlayer : Type := mkPlayer {
  p_rect : Rect;
  score : Z;
  ammo : Z;
  power_up : option ref
}.

(** Modelled from the spec: [add_score(n)] adds [n] to the score. *)
Definition add_score (n : Z) (p : UserPlayer) : UserPlayer :=
  {| p_rect := p_rect p; score := score p + n; ammo := ammo p;
     power_up := power_up p |}.

(** Modelled from the spec: [add_ammo(n)] adds [n] to the ammo. *)
Definition add_ammo (n : Z) (p : UserPlayer) : UserPlayer :=
  {| p_rect := p_rect p; score := score p; ammo := ammo p + n;
     power_up := power_up p |}.

(** Modelled from the spec: [set_power_up(token)] stores the reference. *)
Definition set_power_up (t : ref) (p : UserPlayer) : UserPlayer :=
  {| p_rect := p_rect p; score := score p; ammo := ammo p;
     power_up := Some t |}.

(** ** The state [collect] works on *)

Record World : Type := mkWorld {
  objs : ref -> Token;      (* the token objects, by reference *)
  tokens : list ref;        (* the list passed as [tokens] *)
  player : UserPlayer       (* the object passed as [player] *)
}.

Definition with_objs (f : (ref -> Token) -> ref -> Token) (w : World) : World :=
  {| objs := f (objs w); tokens := tokens w; player := player w |}.
Definition with_tokens (l : list ref) (w : World) : World :=
  {| objs := objs w; tokens := l; player := player w |}.
Definition with_player (f : UserPlayer -> UserPlayer) (w : World) : World :=
  {| objs := objs w; tokens := tokens w; player := f (player w) |}.

Definition update_obj (self : ref) (f : Token -> Token)
  (o : ref -> Token) : ref -> Token :=
  fun r => if Nat.eqb r self then f (o r) else o r.

Section Collect.
Local Open Scope py_scope.

(** [self.rect.collidepoint(player.rect.center)] *)
Definition collides (self : ref) (w : World) : bool :=
  collidepoint (tok_rect (objs w self)) (center (p_rect (player w))).

(** [tokens.remove(self)] *)
Definition tokens_remove (self : ref) : M World unit :=
  fun w => match PyList.remove self (tokens w) with
           | Some l => (with_tokens l w, Ret tt)
           | None => (w, Raise ValueError)
           end.

Definition ScoreToken_collect (self : ref) : M World unit :=
  hit <- gets (collides self) ;;
  if hit : bool then
    modify (with_player (add_score 100)) ;;
    tokens_remove self
  else ret tt.

Definition AmmoToken_collect (self : ref) : M World unit :=
  hit <- gets (collides self) ;;
  if hit : bool then
    modify (with_player (add_ammo 5)) ;;
    tokens_remove self
  else ret tt.

Definition PowerUpToken_collect (ticks : Z) (self : ref) : M World unit :=
  pu <- gets (fun w => power_up (player w)) ;;
  match pu with
  | Some _ => ret tt
  | None =>
      hit <- gets (collides self) ;;
      if hit : bool then
        modify (with_objs (update_obj self (set_start_time ticks))) ;;
        tokens_remove self ;;
        modify (with_player (set_power_up self))
      else ret tt
  end.

(** [T.collect(player, tokens)]: dispatch on the class of the object. *)
Definition collect (ticks : Z) (self : ref) : M World unit :=
  fun w => match tok_class (objs w self) with
           | ScoreToken => ScoreToken_collect self w
           | AmmoToken => AmmoToken_collect self w
           | PowerUpToken _ => PowerUpToken_collect ticks self w
           end.

(** [PowerUpToken.check_for_completion]; [ticks] is [get_ticks()]. *)
Definition check_for_completion (ticks : Z) (self : ref) : M World bool :=
  st <- gets (fun w => start_time (objs w self)) ;;
  match st with
  | None => raise TypeError
  | Some t0 => if 30000 <=? ticks - t0 then ret true else ret false
  end.
End Collect.

(** ** Enemies, as this module uses them *)

(** Modelled from the spec: [Enemy] lives in [character.py], which is not
    part of the sources.  This module reads only its [rect]. *)
Record Enemy : Type := mkEnemy {
  enemy_rect : Rect
}.

(** ** Bullets *)

Record Bullet : Type := mkBullet {
  bullet_x : Q;
  bullet_y : Q;
  bullet_rect : Rect;
  direction : string
}.

(** [Bullet.__init__] *)
Definition Bullet_init (x y : Q) (d : string) : Bullet :=
  {| bullet_x := x;
     bullet_y := y;
     bullet_rect := mkRect (int (x - 2)) (int (y - 2)) 4 4;
     direction := d |}.

(** What a bullet method works on: the bullet itself and the list passed
    as [enemies]. *)
Record Shot : Type := mkShot {
  self : Bullet;
  enemies : list ref
}.

Definition with_self (f : Bullet -> Bullet) (s : Shot) : Shot :=
  {| self := f (self s); enemies := enemies s |}.
Definition with_enemies (l : list ref) (s : Shot) : Shot :=
  {| self := self s; enemies := l |}.

Definition set_x (x : Q) (b : Bullet) : Bullet :=
  {| bullet_x := x; bullet_y := bullet_y b;
     bullet_rect := bullet_rect b; direction := direction b |}.
Definition set_y (y : Q) (b : Bullet) : Bullet :=
  {| bullet_x := bullet_x b; bullet_y := y;
     bullet_rect := bullet_rect b; direction := direction b |}.

(** [m] run [n] times in a row. *)
Fixpoint times {S} (n : nat) (m : M S unit) : M S unit :=
  match n with
  | O => ret tt
  | Datatypes.S n' => bind m (fun _ => times n' m)
  end.

Section Bullets.
Local Open Scope py_scope.

(** Modelled from the spec: [MOVEMENT_COEFFICIENTS] and [BULLET_SPEED] come
    from [constants.py], which is not part of the sources: a table from
    the supported directions to displacement vectors, and the speed that
    scales them.  [enemy_objs] is the store of the enemy objects. *)
Variable MOVEMENT_COEFFICIENTS : gmap string (Q * Q).
Variable BULLET_SPEED : Q.
Variable enemy_objs : ref -> Enemy.

(** [MOVEMENT_COEFFICIENTS[self.direction]] *)
Definition coefficients : M Shot (Q * Q) :=
  d <- gets (fun s => direction (self s)) ;;
  match MOVEMENT_COEFFICIENTS !! d with
  | Some c => ret c
  | None => raise KeyError
  end.

(** [Bullet.update] *)
Definition update : M Shot unit :=
  c <- coefficients ;;
  modify (with_self (fun b => set_x (bullet_x b + fst c * BULLET_SPEED)%Q b)) ;;
  c <- coefficients ;;
  modify (with_self (fun b => set_y (bullet_y b + snd c * BULLET_SPEED)%Q b)).

(** The bullet after both assignments of [update], for the table entry
    [c]. *)
Definition moved (c : Q * Q) (b : Bullet) : Bullet :=
  set_y (bullet_y b + snd c * BULLET_SPEED)%Q
        (set_x (bullet_x b + fst c * BULLET_SPEED)%Q b).

(** [enemy.rect.collidepoint((self.x, self.y))] *)
Definition hits (b : Bullet) (enemy : ref) : bool :=
  collidepoint_xy (enemy_rect (enemy_objs enemy)) (bullet_x b) (bullet_y b).

(** [enemies.remove(enemy)] *)
Definition enemies_remove (enemy : ref) : M Shot unit :=
  fun s => match PyList.remove enemy (enemies s) with
           | Some l => (with_enemies l s, Ret tt)
           | None => (s, Raise ValueError)
           end.

(** The loop of [check_for_enemies] over the snapshot [enemies.copy()]. *)
Fixpoint check_loop (snapshot : list ref) (kills : Z) : M Shot Z :=
  match snapshot with
  | [] => ret kills
  | enemy :: rest =>
      hit <- gets (fun s => hits (self s) enemy) ;;
      if hit : bool then
        enemies_remove enemy ;;
        check_loop rest (kills + 1)
      else check_loop rest kills
  end.

(** [Bullet.check_for_enemies] *)
Definition check_for_enemies : M Shot Z :=
  snapshot <- gets enemies ;;
  check_loop snapshot 0.

(** A call made on a bullet during its lifetime; [CheckForEnemies l] is the
    call [check_for_enemies(l)]. *)
Inductive call : Type :=
| Update
| CheckForEnemies (l : list ref).

Definition do_call (c : call) : M Shot unit :=
  match c with
  | Update => update
  | CheckForEnemies l =>
      modify (with_enemies l) ;;
      _ <- check_for_enemies ;;
      ret tt
  end.

(** A sequence of calls; the first exception ends it. *)
Fixpoint run (cs : list call) : M Shot unit :=
  match cs with
  | [] => ret tt
  | c :: cs' => do_call c ;; run cs'
  end.

(** The rect is centred on the current position: what [__init__]
    establishes. *)
Definition rect_centered (b : Bullet) : Prop :=
  bullet_rect b = mkRect (int (bullet_x b - 2)) (int (bullet_y b - 2)) 4 4.

End Bullets.

(** An instance of the constants, to evaluate the definitions on: a
    four-way table and a speed of ten pixels per frame. *)
Definition example_coefficients : gmap string (Q * Q) :=
  <["up" := (0, -1)%Q]> (<["down" := (0, 1)%Q]>
  (<["left" := (-1, 0)%Q]> (<["right" := (1, 0)%Q]> ∅))).

Definition example_speed : Q := 10.

(** A world to evaluate the token methods on: a score token, an ammo
    token and a power-up under the player's centre [(10, 10)], and a score
    token far from it. *)
Definition demo_objs : ref -> Token :=
  fun r => match r with
           | 0%nat => Token_init ScoreToken (10, 10)%Q 16 16
           | 1%nat => Token_init AmmoToken (10, 10)%Q 16 16
           | 2%nat => Token_init (PowerUpToken PUDoubleScore) (10, 10)%Q 16 16
           | _ => Token_init ScoreToken (200, 200)%Q 16 16
           end.

Definition demo_player : UserPlayer := mkPlayer (mkRect 0 0 20 20) 0 0 None.

Definition demo_world : World :=
  mkWorld demo_objs [0%nat; 1%nat; 2%nat; 3%nat] demo_player.

(** The same objects, with a list that holds none of the three tokens under
    the player. *)
Definition stale_world : World := mkWorld demo_objs [3%nat] demo_player.

(** The player of [demo_world] while a power-up is active. *)
Definition busy_world : World :=
  mkWorld demo_objs [0%nat; 1%nat; 2%nat; 3%nat]
          (mkPlayer (mkRect 0 0 20 20) 0 0 (Some 7%nat)).

(** Enemies to evaluate [check_for_enemies] on: the rects of enemies 0
    and 1 contain the point [(7, 7)], the others are far from it. *)
Definition demo_enemies : ref -> Enemy :=
  fun r => match r with
           | 0%nat => mkEnemy (mkRect 0 0 10 10)
           | 1%nat => mkEnemy (mkRect 5 5 10 10)
           | _ => mkEnemy (mkRect 100 100 5 5)
           end.

(** ** Drawing *)

(** What a method asks of the surface it is handed, in the order of the
    calls: [screen.blit(image, rect)] and
    [pygame.draw.circle(screen, color, center, radius)]. *)
Inductive draw_cmd : Type :=
| Blit (image : string) (dest : Rect)
| Circle (color : string) (cx cy : Q) (radius : Z).

(** The image each class hands to [Token.__init__]. *)
Definition Token_image (c : TokenClass) : string :=
  match c with
  | ScoreToken => "assets/token_icons/score_icon.png"
  | AmmoToken => "assets/token_icons/ammo_icon.png"
  | PowerUpToken _ => "assets/token_icons/powerup_icon.png"
  end.


(** One drawing call, computed from the state. *)
Definition emit {S} (f : S -> draw_cmd) : M (S * list draw_cmd) unit :=
  fun st => ((fst st, snd st ++ [f (fst st)]), Ret tt).

(** [Token.draw] *)
Definition Token_draw (self : ref) : M (World * list draw_cmd) unit :=
  emit (fun w => Blit (Token_image (tok_class (objs w self)))
                      (tok_rect (objs w self))).




(** A sequence of [collect] calls, each with the tick it runs at and the
    token it is called on; the first exception ends it. *)
Fixpoint collects (cs : list (Z * ref)) : M World unit :=
  match cs with
  | [] => ret tt
  | (t, T) :: cs' => bind (collect t T) (fun _ => collects cs')
  end.

(** Follows the words of the specification, not the code: the rect
    contains the point [(x, y)] itself, with the coordinates as they are.
    [hits] is what the code tests. *)
Definition contains_point (r : Rect) (x y : Q) : bool :=
  Qle_bool (inject_Z (rect_x r)) x &&
  negb (Qle_bool (inject_Z (rect_x r + rect_w r)) x) &&
  Qle_bool (inject_Z (rect_y r)) y &&
  negb (Qle_bool (inject_Z (rect_y r + rect_h r)) y).

(** Two enemies on either side of the origin: enemy 0 covers
    [0 <= x, y < 10], every other one covers [-10 <= x, y < 0]. *)
Definition edge_enemies : ref -> Enemy :=
  fun r => match r with
           | 0%nat => mkEnemy (mkRect 0 0 10 10)
           | _ => mkEnemy (mkRect (-10) (-10) 10 10)
           end.

(** ** Bullets with the arithmetic of the program *)

(** Above, coordinates are rationals, which is enough wherever only the
    shape of the computation matters.  Where the sums themselves matter,
    the bullet is taken with the numbers Python has: [x] and [y] are
    binary64 floats, [+] and [*] round to nearest, and a constant written
    as an [int] enters the arithmetic as the float of the same value. *)
Module Binary64.

Record Bullet : Type := mkBullet {
  bullet_x : float;
  bullet_y : float;
  bullet_rect : Rect;
  direction : string
}.

Definition set_x (x : float) (b : Bullet) : Bullet :=
  {| bullet_x := x; bullet_y := bullet_y b;
     bullet_rect := bullet_rect b; direction := direction b |}.
Definition set_y (y : float) (b : Bullet) : Bullet :=
  {| bullet_x := bullet_x b; bullet_y := y;
     bullet_rect := bullet_rect b; direction := direction b |}.

Section Update.
Local Open Scope py_scope.

(** Modelled from the spec: the constants of [constants.py], as for the
    bullets above. *)
Variable MOVEMENT_COEFFICIENTS : gmap string (float * float).
Variable BULLET_SPEED : float.

(** [MOVEMENT_COEFFICIENTS[self.direction]] *)
Definition coefficients : M Bullet (float * float) :=
  d <- gets direction ;;
  match MOVEMENT_COEFFICIENTS !! d with
  | Some c => ret c
  | None => raise KeyError
  end.

(** [Bullet.update] *)
Definition update : M Bullet unit :=
  c <- coefficients ;;
  modify (fun b => set_x (bullet_x b + fst c * BULLET_SPEED)%float b) ;;
  c <- coefficients ;;
  modify (fun b => set_y (bullet_y b + snd c * BULLET_SPEED)%float b).

End Update.

(** The number a float stands for; [None] for the infinities and NaN. *)
Definition value (f : float) : option Q :=
  match Prim2SF f with
  | S754_zero _ => Some 0%Q
  | S754_finite s m e =>
      Some ((if s then -1 else 1) * inject_Z (Z.pos m) * 2 ^ e)%Q
  | S754_infinity _ => None
  | S754_nan => None
  end.

(** The sum (product) of two floats is computed without rounding. *)
Definition exact_add (a b : float) : bool :=
  match value a, value b, value (a + b)%float with
  | Some qa, Some qb, Some qs => Qeq_bool qs (qa + qb)
  | _, _, _ => false
  end.

Definition exact_mul (a b : float) : bool :=
  match value a, value b, value (a * b)%float with
  | Some qa, Some qb, Some qp => Qeq_bool qp (qa * qb)
  | _, _, _ => false
  end.

(** The constants of [example_coefficients] and [example_speed]. *)
Definition example_coefficients : gmap string (float * float) :=
  <["up" := (0, -1)%float]> (<["down" := (0, 1)%float]>
  (<["left" := (-1, 0)%float]> (<["right" := (1, 0)%float]> ∅))).

Definition example_speed : float := 10.

End Binary64.

(** * Properties *)

(** ** [list.remove] *)

Lemma remove_In (x : ref) (l : list ref) :
  In x l ->
  exists l1 l2, l = l1 ++ x :: l2 /\ ~ In x l1 /\
                PyList.remove x l = Some (l1 ++ l2).
Proof.
  induction l as [|y l IH]; simpl; [tauto|].
  intros Hin. destruct (Nat.eqb_spec y x) as [->|Hne].
  - exists [], l. simpl. tauto.
  - destruct Hin as [Heq|Hin]; [congruence|].
    destruct (IH Hin) as (l1 & l2 & -> & Hnot & ->).
    exists (y :: l1), l2. simpl. intuition congruence.
Qed.

Lemma remove_not_In (x : ref) (l : list ref) :
  ~ In x l -> PyList.remove x l = None.
Proof.
  induction l as [|y l IH]; simpl; [reflexivity|].
  intros Hnot. destruct (Nat.eqb_spec y x) as [->|Hne]; [tauto|].
  rewrite IH; tauto.
Qed.

Lemma remove_first (x : ref) (l1 l2 : list ref) :
  ~ In x l1 -> PyList.remove x (l1 ++ x :: l2) = Some (l1 ++ l2).
Proof.
  induction l1 as [|y l1 IH]; simpl; intros Hnot.
  - now rewrite Nat.eqb_refl.
  - destruct (Nat.eqb_spec y x) as [->|Hne]; [tauto|].
    rewrite IH; tauto.
Qed.

(** ** Running the token methods *)

Ltac run_method :=
  unfold collect, ScoreToken_collect, AmmoToken_collect,
    PowerUpToken_collect, check_for_completion, tokens_remove,
    bind, gets, modify, ret, raise; simpl.

Lemma ScoreToken_collect_hit (T : ref) (w : World) :
  collides T w = true ->
  ScoreToken_collect T w = tokens_remove T (with_player (add_score 100) w).
Proof. intros H. unfold ScoreToken_collect, bind, gets, modify. now rewrite H. Qed.

Lemma AmmoToken_collect_hit (T : ref) (w : World) :
  collides T w = true ->
  AmmoToken_collect T w = tokens_remove T (with_player (add_ammo 5) w).
Proof. intros H. unfold AmmoToken_collect, bind, gets, modify. now rewrite H. Qed.

Lemma PowerUpToken_collect_hit (ticks : Z) (T : ref) (w : World) :
  power_up (player w) = None ->
  collides T w = true ->
  PowerUpToken_collect ticks T w =
  bind (tokens_remove T) (fun _ => modify (with_player (set_power_up T)))
       (with_objs (update_obj T (set_start_time ticks)) w).
Proof.
  intros Hpu H. unfold PowerUpToken_collect, bind at 1 2 3, gets, modify at 1.
  now rewrite Hpu, H.
Qed.

Lemma update_obj_same (T : ref) (f : Token -> Token) (o : ref -> Token) :
  update_obj T f o T = f (o T).
Proof. unfold update_obj. now rewrite Nat.eqb_refl. Qed.

Lemma update_obj_other (T r : ref) (f : Token -> Token) (o : ref -> Token) :
  r <> T -> update_obj T f o r = o r.
Proof. intros H. unfold update_obj. now destruct (Nat.eqb_spec r T). Qed.

(** C1. A score (ammo) token whose rect contains the player's centre adds
    exactly 100 to the score (5 to the ammo) through [add_score]
    ([add_ammo]) and leaves the token list without its first occurrence
    of the token, hence without the token when the list has no duplicates;
    without overlap, [collect] changes nothing. *)
Theorem collect_score_ammo (ticks : Z) (T : ref) (w : World) :
  In T (tokens w) ->
  (tok_class (objs w T) = ScoreToken -> collides T w = true ->
   exists l1 l2 w',
     tokens w = l1 ++ T :: l2 /\ ~ In T l1 /\
     collect ticks T w = (w', Ret tt) /\
     player w' = add_score 100 (player w) /\
     score (player w') = score (player w) + 100 /\
     ammo (player w') = ammo (player w) /\
     power_up (player w') = power_up (player w) /\
     tokens w' = l1 ++ l2 /\
     objs w' = objs w /\
     (List.NoDup (tokens w) -> ~ In T (tokens w'))) /\
  (tok_class (objs w T) = AmmoToken -> collides T w = true ->
   exists l1 l2 w',
     tokens w = l1 ++ T :: l2 /\ ~ In T l1 /\
     collect ticks T w = (w', Ret tt) /\
     player w' = add_ammo 5 (player w) /\
     ammo (player w') = ammo (player w) + 5 /\
     score (player w') = score (player w) /\
     power_up (player w') = power_up (player w) /\
     tokens w' = l1 ++ l2 /\
     objs w' = objs w /\
     (List.NoDup (tokens w) -> ~ In T (tokens w'))) /\
  (tok_class (objs w T) = ScoreToken \/ tok_class (objs w T) = AmmoToken ->
   collides T w = false ->
   collect ticks T w = (w, Ret tt)).
Proof.
  intros Hin.
  destruct (remove_In T (tokens w) Hin) as (l1 & l2 & Hl & Hnot & Hrm).
  repeat split.
  - intros Hc Hhit.
    exists l1, l2, (with_tokens (l1 ++ l2) (with_player (add_score 100) w)).
    repeat split; try assumption.
    + unfold collect. rewrite Hc, ScoreToken_collect_hit by assumption.
      unfold tokens_remove. simpl. now rewrite Hrm.
    + simpl. rewrite Hl. apply List.NoDup_remove_2.
  - intros Hc Hhit.
    exists l1, l2, (with_tokens (l1 ++ l2) (with_player (add_ammo 5) w)).
    repeat split; try assumption.
    + unfold collect. rewrite Hc, AmmoToken_collect_hit by assumption.
      unfold tokens_remove. simpl. now rewrite Hrm.
    + simpl. rewrite Hl. apply List.NoDup_remove_2.
  - intros [Hc|Hc] Hmiss; unfold collect; rewrite Hc; run_method;
      now rewrite Hmiss.
Qed.

Lemma collect_score_ammo_witness :
  (exists w', collect 0 0%nat demo_world = (w', Ret tt) /\
              score (player w') = 100 /\
              tokens w' = [1%nat; 2%nat; 3%nat]) /\
  (exists w', collect 0 1%nat demo_world = (w', Ret tt) /\
              ammo (player w') = 5 /\
              tokens w' = [0%nat; 2%nat; 3%nat]) /\
  collect 0 3%nat demo_world = (demo_world, Ret tt).
Proof.
  split; [|split].
  - destruct (collect_score_ammo 0 0%nat demo_world) as (H & _ & _);
      [simpl; auto|].
    destruct (H eq_refl eq_refl)
      as (l1 & l2 & w' & Hl & Hn & Hc & _ & Hs & _ & _ & Ht & _).
    exists w'. repeat split; [exact Hc | exact Hs |].
    pose proof (remove_first _ l1 l2 Hn) as Hr.
    rewrite <- Hl in Hr. simpl in Hr. rewrite Ht. now injection Hr.
  - destruct (collect_score_ammo 0 1%nat demo_world) as (_ & H & _);
      [simpl; auto|].
    destruct (H eq_refl eq_refl)
      as (l1 & l2 & w' & Hl & Hn & Hc & _ & Hs & _ & _ & Ht & _).
    exists w'. repeat split; [exact Hc | exact Hs |].
    pose proof (remove_first _ l1 l2 Hn) as Hr.
    rewrite <- Hl in Hr. simpl in Hr. rewrite Ht. now injection Hr.
  - destruct (collect_score_ammo 0 3%nat demo_world) as (_ & _ & H);
      [simpl; auto 6|].
    apply H; [left|]; reflexivity.
Defined.

(** ** Power-up tokens *)

(** The labels of the four power-ups are pairwise distinct. *)
Lemma PowerUp_str_inj (k1 k2 : PowerUp) :
  PowerUp_str k1 = PowerUp_str k2 -> k1 = k2.
Proof. destruct k1, k2; simpl; intros H; (reflexivity || discriminate H). Qed.


(** C2. With no power-up active and the player's centre inside the rect,
    [collect] on a power-up token of the list sets [start_time] to the
    current tick, removes the token from the list and stores the token in
    the player's power-up slot, and changes nothing else.  It does so in
    that order: on every list it is the three steps run one after the
    other, and on a list without the token, where the second step raises,
    it stops with [start_time] written and the slot still empty. *)
Theorem powerup_collect_effects (ticks : Z) (T : ref) (k : PowerUp) (w : World) :
  tok_class (objs w T) = PowerUpToken k ->
  power_up (player w) = None ->
  In T (tokens w) ->
  collides T w = true ->
  (exists l1 l2,
    tokens w = l1 ++ T :: l2 /\ ~ In T l1 /\
    let w1 := with_objs (update_obj T (set_start_time ticks)) w in
    let w2 := with_tokens (l1 ++ l2) w1 in
    let w3 := with_player (set_power_up T) w2 in
    tokens_remove T w1 = (w2, Ret tt) /\
    collect ticks T w = (w3, Ret tt) /\
    start_time (objs w3 T) = Some ticks /\
    tokens w3 = l1 ++ l2 /\
    power_up (player w3) = Some T /\
    tok_class (objs w3 T) = tok_class (objs w T) /\
    tok_rect (objs w3 T) = tok_rect (objs w T) /\
    (forall r, r <> T -> objs w3 r = objs w r) /\
    score (player w3) = score (player w) /\
    ammo (player w3) = ammo (player w) /\
    p_rect (player w3) = p_rect (player w) /\
    (List.NoDup (tokens w) -> ~ In T (tokens w3))) /\
  (forall l : list ref,
    collect ticks T (with_tokens l w) =
    bind (modify (with_objs (update_obj T (set_start_time ticks))))
      (fun _ => bind (tokens_remove T)
         (fun _ => modify (with_player (set_power_up T))))
      (with_tokens l w)) /\
  (forall l : list ref,
    ~ In T l ->
    let w1 :=
      with_objs (update_obj T (set_start_time ticks)) (with_tokens l w) in
    collect ticks T (with_tokens l w) = (w1, Raise ValueError) /\
    start_time (objs w1 T) = Some ticks /\
    tokens w1 = l /\
    power_up (player w1) = None).
Proof.
  intros Hc Hpu Hin Hhit.
  assert (Hseq : forall l : list ref,
    collect ticks T (with_tokens l w) =
    bind (modify (with_objs (update_obj T (set_start_time ticks))))
      (fun _ => bind (tokens_remove T)
         (fun _ => modify (with_player (set_power_up T))))
      (with_tokens l w)).
  { intros l. unfold collect. cbn [objs with_tokens]. rewrite Hc.
    now rewrite PowerUpToken_collect_hit by assumption. }
  split; [|split; [exact Hseq|]].
  - destruct (remove_In T (tokens w) Hin) as (l1 & l2 & Hl & Hnot & Hrm).
    exists l1, l2. split; [exact Hl|]. split; [exact Hnot|]. cbv zeta.
    assert (Hstep : tokens_remove T
                      (with_objs (update_obj T (set_start_time ticks)) w) =
                    (with_tokens (l1 ++ l2)
                       (with_objs (update_obj T (set_start_time ticks)) w),
                     Ret tt)).
    { unfold tokens_remove. simpl. now rewrite Hrm. }
    split; [exact Hstep|]. split.
    + unfold collect. rewrite Hc, PowerUpToken_collect_hit by assumption.
      unfold bind. now rewrite Hstep.
    + simpl. rewrite update_obj_same. simpl.
      repeat split; try reflexivity.
      * intros r Hr. now apply update_obj_other.
      * rewrite Hl. apply List.NoDup_remove_2.
  - intros l Hnot. cbv zeta. rewrite Hseq.
    unfold bind, modify, tokens_remove. cbn [tokens with_objs with_tokens].
    rewrite (remove_not_In T l Hnot).
    split; [reflexivity|]. split; [|split; [reflexivity | exact Hpu]].
    cbn [objs with_objs with_tokens]. now rewrite update_obj_same.
Qed.

Lemma powerup_collect_effects_witness :
  (exists w', collect 1234 2%nat demo_world = (w', Ret tt) /\
              start_time (objs w' 2%nat) = Some 1234 /\
              tokens w' = [0%nat; 1%nat; 3%nat] /\
              power_up (player w') = Some 2%nat) /\
  (exists w1, collect 1234 2%nat (with_tokens [3%nat] demo_world) =
                (w1, Raise ValueError) /\
              start_time (objs w1 2%nat) = Some 1234 /\
              power_up (player w1) = None).
Proof.
  destruct (powerup_collect_effects 1234 2%nat PUDoubleScore demo_world
              eq_refl eq_refl)
    as ((l1 & l2 & Hl & Hn & _ & Hc & Hs & Ht & Hp & _) & _ & Hord);
    [simpl; auto | reflexivity |].
  split.
  - eexists. split; [exact Hc|]. split; [exact Hs|]. split; [|exact Hp].
    pose proof (remove_first _ l1 l2 Hn) as Hr.
    rewrite <- Hl in Hr. simpl in Hr. rewrite Ht. now injection Hr.
  - destruct (Hord [3%nat]) as (Hrun & Hst & _ & Hpu).
    + simpl. intros [Hx|[]]. discriminate Hx.
    + eexists. split; [exact Hrun|]. split; [exact Hst | exact Hpu].
Defined.

(** C6. While the player holds a power-up, [collect] on a power-up token
    returns at once: the token list, [start_time], the power-up slot and
    the rest of the state are unchanged, with or without overlap. *)
Theorem powerup_collect_blocked
  (ticks : Z) (T active : ref) (k : PowerUp) (w : World) :
  tok_class (objs w T) = PowerUpToken k ->
  power_up (player w) = Some active ->
  collect ticks T w = (w, Ret tt).
Proof.
  intros Hc Hpu. unfold collect. rewrite Hc.
  unfold PowerUpToken_collect, bind, gets. now rewrite Hpu.
Qed.

Lemma powerup_collect_blocked_witness :
  collides 2%nat busy_world = true /\
  collect 1234 2%nat busy_world = (busy_world, Ret tt).
Proof.
  split; [reflexivity|].
  apply (powerup_collect_blocked 1234 2%nat 7%nat PUDoubleScore busy_world);
    reflexivity.
Defined.

Lemma check_for_completion_set (t t0 : Z) (T : ref) (w : World) :
  start_time (objs w T) = Some t0 ->
  check_for_completion t T w = (w, Ret (30000 <=? t - t0)).
Proof.
  intros Hst. unfold check_for_completion, bind, gets. rewrite Hst.
  now destruct (30000 <=? t - t0).
Qed.

(** C3. After a power-up token was collected at tick [t0], at every tick
    [t >= t0] [check_for_completion] returns false while
    [t - t0 < 30000] and true from [t - t0 = 30000] on. *)
Theorem check_for_completion_boundary
  (t0 t : Z) (T : ref) (k : PowerUp) (w w' : World) :
  tok_class (objs w T) = PowerUpToken k ->
  collides T w = true ->
  power_up (player w) = None ->
  collect t0 T w = (w', Ret tt) ->
  t0 <= t ->
  start_time (objs w' T) = Some t0 /\
  (t - t0 < 30000 -> check_for_completion t T w' = (w', Ret false)) /\
  (30000 <= t - t0 -> check_for_completion t T w' = (w', Ret true)) /\
  check_for_completion (t0 + 30000) T w' = (w', Ret true) /\
  check_for_completion (t0 + 29999) T w' = (w', Ret false).
Proof.
  intros Hc Hhit Hpu Hrun Hle.
  assert (Hst : start_time (objs w' T) = Some t0).
  { unfold collect in Hrun.
    rewrite Hc, PowerUpToken_collect_hit in Hrun by assumption.
    unfold bind, tokens_remove, modify in Hrun. simpl in Hrun.
    destruct (PyList.remove T (tokens w)); inversion Hrun; subst; simpl.
    now rewrite update_obj_same. }
  split; [exact Hst|].
  repeat split; try intros Hlt;
    rewrite (check_for_completion_set _ t0) by exact Hst;
    do 2 f_equal; lia.
Qed.

Lemma check_for_completion_boundary_witness :
  exists w', collect 1234 2%nat demo_world = (w', Ret tt) /\
             check_for_completion (1234 + 29999) 2%nat w' = (w', Ret false) /\
             check_for_completion (1234 + 30000) 2%nat w' = (w', Ret true).
Proof.
  eexists. split; [reflexivity|].
  destruct (check_for_completion_boundary 1234 (1234 + 30000) 2%nat
              PUDoubleScore demo_world _ eq_refl eq_refl eq_refl eq_refl)
    as (_ & _ & _ & Ht & Hf); [lia|].
  split; [exact Hf | exact Ht].
Defined.

(** C8. [check_for_completion] needs [start_time] to be set: on a token
    whose [start_time] is still [None], as [__init__] leaves it, the call
    raises (a [TypeError], from subtracting [None]); once it is set the
    call returns a boolean and raises nothing.  The state is untouched
    either way. *)
Theorem check_for_completion_precondition (ticks : Z) (T : ref) (w : World) :
  (start_time (objs w T) = None ->
   check_for_completion ticks T w = (w, Raise TypeError)) /\
  (forall k location img_w img_h,
   objs w T = Token_init (PowerUpToken k) location img_w img_h ->
   check_for_completion ticks T w = (w, Raise TypeError)) /\
  (forall t0, start_time (objs w T) = Some t0 ->
   exists b : bool, check_for_completion ticks T w = (w, Ret b)).
Proof.
  assert (Hnone : start_time (objs w T) = None ->
                  check_for_completion ticks T w = (w, Raise TypeError)).
  { intros Hst. unfold check_for_completion, bind, gets. now rewrite Hst. }
  split; [exact Hnone|]. split.
  - intros k location img_w img_h Hnew. apply Hnone. now rewrite Hnew.
  - intros t0 Hst. eexists. now apply check_for_completion_set with (t0 := t0).
Qed.

Lemma check_for_completion_precondition_witness :
  check_for_completion 50000 2%nat demo_world = (demo_world, Raise TypeError) /\
  exists b : bool,
    check_for_completion 50000 2%nat
      (with_objs (update_obj 2%nat (set_start_time 1234)) demo_world) =
    (with_objs (update_obj 2%nat (set_start_time 1234)) demo_world, Ret b).
Proof.
  split.
  - apply (check_for_completion_precondition 50000 2%nat demo_world).
    reflexivity.
  - destruct (check_for_completion_precondition 50000 2%nat
                (with_objs (update_obj 2%nat (set_start_time 1234)) demo_world))
      as (_ & _ & H).
    apply (H 1234). reflexivity.
Defined.

(** C10. When the token's rect contains the player's centre but the token
    is not in the list, [collect] raises from the removal, after the effect
    that precedes it: the score (ammo) is already increased; for a
    power-up with no power-up active, [start_time] is already set and the
    player's slot is still empty. *)
Theorem collect_not_atomic (ticks : Z) (T : ref) (w : World) :
  ~ In T (tokens w) ->
  collides T w = true ->
  (tok_class (objs w T) = ScoreToken ->
   exists w', collect ticks T w = (w', Raise ValueError) /\
              score (player w') = score (player w) + 100 /\
              tokens w' = tokens w) /\
  (tok_class (objs w T) = AmmoToken ->
   exists w', collect ticks T w = (w', Raise ValueError) /\
              ammo (player w') = ammo (player w) + 5 /\
              tokens w' = tokens w) /\
  (forall k, tok_class (objs w T) = PowerUpToken k ->
   power_up (player w) = None ->
   exists w', collect ticks T w = (w', Raise ValueError) /\
              start_time (objs w' T) = Some ticks /\
              power_up (player w') = None /\
              tokens w' = tokens w).
Proof.
  intros Hnot Hhit. pose proof (remove_not_In T (tokens w) Hnot) as Hrm.
  repeat split.
  - intros Hc. exists (with_player (add_score 100) w).
    repeat split. unfold collect.
    rewrite Hc, ScoreToken_collect_hit by assumption.
    unfold tokens_remove. simpl. now rewrite Hrm.
  - intros Hc. exists (with_player (add_ammo 5) w).
    repeat split. unfold collect.
    rewrite Hc, AmmoToken_collect_hit by assumption.
    unfold tokens_remove. simpl. now rewrite Hrm.
  - intros k Hc Hpu.
    exists (with_objs (update_obj T (set_start_time ticks)) w).
    repeat split.
    + unfold collect. rewrite Hc, PowerUpToken_collect_hit by assumption.
      unfold bind, tokens_remove. simpl. now rewrite Hrm.
    + simpl. now rewrite update_obj_same.
    + exact Hpu.
Qed.

Lemma collect_not_atomic_witness :
  (exists w', collect 1234 0%nat stale_world = (w', Raise ValueError) /\
              score (player w') = 100) /\
  (exists w', collect 1234 1%nat stale_world = (w', Raise ValueError) /\
              ammo (player w') = 5) /\
  (exists w', collect 1234 2%nat stale_world = (w', Raise ValueError) /\
              start_time (objs w' 2%nat) = Some 1234 /\
              power_up (player w') = None).
Proof.
  assert (H3 : forall x : ref, In x (tokens stale_world) -> x = 3%nat).
  { simpl. intros x [Hx|[]]. now symmetry. }
  split; [|split].
  - destruct (collect_not_atomic 1234 0%nat stale_world) as (H & _ & _);
      [intros Hin; apply H3 in Hin; discriminate | reflexivity |].
    destruct (H eq_refl) as (w' & Hc & Hs & _). now exists w'.
  - destruct (collect_not_atomic 1234 1%nat stale_world) as (_ & H & _);
      [intros Hin; apply H3 in Hin; discriminate | reflexivity |].
    destruct (H eq_refl) as (w' & Hc & Hs & _). now exists w'.
  - destruct (collect_not_atomic 1234 2%nat stale_world) as (_ & _ & H);
      [intros Hin; apply H3 in Hin; discriminate | reflexivity |].
    destruct (H PUDoubleScore eq_refl eq_refl) as (w' & Hc & Hs & Hp & _).
    now exists w'.
Defined.

(** ** Bullets *)

Section BulletFacts.
Variable MC : gmap string (Q * Q).   (* MOVEMENT_COEFFICIENTS *)
Variable SPEED : Q.                  (* BULLET_SPEED *)
Variable EN : ref -> Enemy.          (* the enemy objects *)

Lemma update_supported (c : Q * Q) (s : Shot) :
  MC !! direction (self s) = Some c ->
  update MC SPEED s = (with_self (moved SPEED c) s, Ret tt).
Proof.
  intros Hd. unfold update, coefficients, bind, gets, modify, ret.
  simpl. rewrite Hd. simpl. now rewrite Hd.
Qed.

Lemma update_unsupported (s : Shot) :
  MC !! direction (self s) = None ->
  update MC SPEED s = (s, Raise KeyError).
Proof.
  intros Hd. unfold update, coefficients, bind, gets, raise.
  now rewrite Hd.
Qed.

(** The loop invariant of [check_for_enemies]: the list is the snapshot
    with the hit enemies of the part already visited taken out. *)
Lemma check_loop_spec (b : Bullet) (snapshot pre : list ref) (kills : Z) :
  Forall (fun e => hits EN b e = false) pre ->
  check_loop EN snapshot kills (mkShot b (pre ++ snapshot)) =
  (mkShot b (pre ++ List.filter (fun e => negb (hits EN b e)) snapshot),
   Ret (kills + Z.of_nat (length (List.filter (hits EN b) snapshot)))).
Proof.
  revert pre kills.
  induction snapshot as [|enemy rest IH]; intros pre kills Hpre; simpl.
  - unfold ret. do 2 f_equal. lia.
  - unfold bind at 1, gets. simpl.
    destruct (hits EN b enemy) eqn:Hhit; simpl.
    + unfold bind, enemies_remove. simpl.
      rewrite remove_first.
      * unfold with_enemies. simpl. rewrite IH by assumption.
        do 2 f_equal. lia.
      * intros Hin. rewrite Forall_forall in Hpre.
        apply list_elem_of_In in Hin.
        specialize (Hpre enemy Hin). congruence.
    + replace (pre ++ enemy :: rest) with ((pre ++ [enemy]) ++ rest)
        by now rewrite <- app_assoc.
      rewrite IH.
      * now rewrite <- app_assoc.
      * apply Forall_app. split; [assumption|]. now constructor.
Qed.

Lemma check_for_enemies_spec (s : Shot) :
  check_for_enemies EN s =
  (with_enemies
     (List.filter (fun e => negb (hits EN (self s) e)) (enemies s)) s,
   Ret (Z.of_nat (length (List.filter (hits EN (self s)) (enemies s))))).
Proof.
  unfold check_for_enemies, bind, gets.
  destruct s as [b l]. simpl.
  apply (check_loop_spec b l [] 0). constructor.
Qed.

(** Neither method touches the rect or the direction, whatever the
    outcome. *)
Lemma do_call_frame (c : call) (s : Shot) :
  bullet_rect (self (fst (do_call MC SPEED EN c s))) = bullet_rect (self s) /\
  direction (self (fst (do_call MC SPEED EN c s))) = direction (self s).
Proof.
  destruct c as [|l]; simpl.
  - destruct (MC !! direction (self s)) as [c|] eqn:Hd.
    + now rewrite (update_supported c).
    + now rewrite update_unsupported.
  - unfold bind, modify. now rewrite check_for_enemies_spec.
Qed.

Lemma run_frame (cs : list call) (s : Shot) :
  bullet_rect (self (fst (run MC SPEED EN cs s))) = bullet_rect (self s) /\
  direction (self (fst (run MC SPEED EN cs s))) = direction (self s).
Proof.
  revert s. induction cs as [|c cs IH]; intros s; simpl; [tauto|].
  unfold bind. pose proof (do_call_frame c s) as Hc.
  destruct (do_call MC SPEED EN c s) as [s1 [[]|e]]; simpl in *.
  - destruct (IH s1) as [-> ->]. exact Hc.
  - exact Hc.
Qed.



(** [int] depends on the value of the rational only. *)
Lemma int_Qeq (a b : Q) : (a == b)%Q -> int a = int b.
Proof.
  unfold Qeq, int. intros H.
  rewrite <- (Z.quot_mul_cancel_r (Qnum a) (Z.pos (Qden a)) (Z.pos (Qden b)))
    by lia.
  rewrite H, (Z.mul_comm (Z.pos (Qden a))).
  apply Z.quot_mul_cancel_r; lia.
Qed.

(** Whatever the constants: as soon as the step of a direction truncates
    to a pixel or more along one axis, one [update] of a bullet created at
    [(2, 2)] leaves its rect off its position. *)
Lemma update_breaks_centering (D : string) (c : Q * Q) (l : list ref) :
  MC !! D = Some c ->
  int (fst c * SPEED) <> 0 \/ int (snd c * SPEED) <> 0 ->
  ~ rect_centered
      (self (fst (run MC SPEED EN [Update] (mkShot (Bullet_init 2 2 D) l)))).
Proof.
  intros Hd Hstep. simpl. unfold bind.
  rewrite (update_supported c) by exact Hd. simpl.
  unfold rect_centered. simpl. intros H. injection H as Hx Hy.
  rewrite (int_Qeq (2 + fst c * SPEED - 2) (fst c * SPEED)) in Hx by ring.
  rewrite (int_Qeq (2 + snd c * SPEED - 2) (snd c * SPEED)) in Hy by ring.
  change (int (2 - 2)) with 0 in Hx, Hy.
  destruct Hstep as [Hs|Hs]; apply Hs; congruence.
Qed.

(** Truncation of a non-negative number is its floor, so comparing it
    with an integer is comparing the number itself. *)
Lemma int_ge_nonneg (a : Z) (q : Q) :
  (0 <= q)%Q -> (a <=? int q) = Qle_bool (inject_Z a) q.
Proof.
  intros Hq. apply eq_true_iff_eq. rewrite Z.leb_le, Qle_bool_iff.
  destruct q as [n d]. unfold Qle, int in *. simpl in *.
  rewrite Z.quot_div_nonneg by lia.
  split; intros H.
  - pose proof (Z.mul_div_le n (Z.pos d) eq_refl). nia.
  - apply Z.div_le_lower_bound; lia.
Qed.

Lemma int_lt_nonneg (b : Z) (q : Q) :
  (0 <= q)%Q -> (int q <? b) = negb (Qle_bool (inject_Z b) q).
Proof.
  intros Hq. now rewrite Z.ltb_antisym, int_ge_nonneg.
Qed.

(** C5, as the code has it.  [check_for_enemies] returns normally; it
    takes out of the list exactly the enemies whose rect contains the
    point [(int(x), int(y))], the bullet's position with both coordinates
    truncated toward zero as [collidepoint] receives them, all of them in
    the one call; it keeps the others in their order, returns the number
    of those taken out, and leaves the bullet as it was.  For a position
    with no negative coordinate this is containment of [(x, y)] itself. *)
Theorem check_for_enemies_removes_hit (s : Shot) :
  exists s',
    check_for_enemies EN s =
      (s', Ret (Z.of_nat (length (List.filter (hits EN (self s)) (enemies s)))))
    /\ self s' = self s
    /\ enemies s' =
         List.filter (fun e => negb (hits EN (self s) e)) (enemies s)
    /\ (forall e, In e (enemies s') <->
                  In e (enemies s) /\ hits EN (self s) e = false)
    /\ (forall e, hits EN (self s) e = true -> ~ In e (enemies s'))
    /\ (forall e,
          hits EN (self s) e = true <->
          let r := enemy_rect (EN e) in
          rect_x r <= int (bullet_x (self s)) < rect_x r + rect_w r /\
          rect_y r <= int (bullet_y (self s)) < rect_y r + rect_h r)
    /\ ((0 <= bullet_x (self s))%Q -> (0 <= bullet_y (self s))%Q ->
        forall e,
          hits EN (self s) e =
          contains_point (enemy_rect (EN e))
            (bullet_x (self s)) (bullet_y (self s))).
Proof.
  eexists. split; [apply check_for_enemies_spec|]. simpl.
  split; [reflexivity|]. split; [reflexivity|]. split; [|split; [|split]].
  - intros e. rewrite filter_In, negb_true_iff. tauto.
  - intros e Hhit He. apply filter_In in He. destruct He as [_ He].
    rewrite Hhit in He. discriminate.
  - intros e. unfold hits, collidepoint_xy, collidepoint. cbn [fst snd].
    rewrite !andb_true_iff, !Z.leb_le, !Z.ltb_lt. tauto.
  - intros Hx Hy e.
    unfold hits, collidepoint_xy, collidepoint, contains_point. cbn [fst snd].
    now rewrite !int_ge_nonneg, !int_lt_nonneg by assumption.
Qed.

(** C9. [update] writes only [x] and [y]; [check_for_enemies] writes no
    field of the bullet; so the rect and the direction of a bullet are
    those of its construction for its whole lifetime; and the outcome of
    [check_for_enemies] depends on the bullet through its position only,
    not through its rect. *)
Theorem bullet_frame :
  (forall s,
     bullet_rect (self (fst (update MC SPEED s))) = bullet_rect (self s) /\
     direction (self (fst (update MC SPEED s))) = direction (self s) /\
     enemies (fst (update MC SPEED s)) = enemies s) /\
  (forall s, self (fst (check_for_enemies EN s)) = self s) /\
  (forall cs x0 y0 d l,
     let b := self (fst (run MC SPEED EN cs (mkShot (Bullet_init x0 y0 d) l))) in
     bullet_rect b = bullet_rect (Bullet_init x0 y0 d) /\ direction b = d) /\
  (forall b1 b2 l,
     bullet_x b1 = bullet_x b2 -> bullet_y b1 = bullet_y b2 ->
     enemies (fst (check_for_enemies EN (mkShot b1 l))) =
       enemies (fst (check_for_enemies EN (mkShot b2 l))) /\
     snd (check_for_enemies EN (mkShot b1 l)) =
       snd (check_for_enemies EN (mkShot b2 l))).
Proof.
  split; [|split; [|split]].
  - intros s. destruct (MC !! direction (self s)) as [c|] eqn:Hd.
    + now rewrite (update_supported c).
    + now rewrite update_unsupported.
  - intros s. now rewrite check_for_enemies_spec.
  - intros cs x0 y0 d l. cbv zeta.
    now destruct (run_frame cs (mkShot (Bullet_init x0 y0 d) l)) as [-> ->].
  - intros b1 b2 l Hx Hy. rewrite !check_for_enemies_spec. simpl.
    assert (Hh : forall e, hits EN b1 e = hits EN b2 e).
    { intros e. unfold hits. now rewrite Hx, Hy. }
    split.
    + apply filter_ext. intros e. now rewrite Hh.
    + do 3 f_equal. apply filter_ext. exact Hh.
Qed.

End BulletFacts.

(** ** The bullet properties at concrete inputs *)



Lemma bullet_frame_witness :
  let b1 := Bullet_init 7 7 "up" in
  let b2 := mkBullet 7 7 (mkRect 500 500 1 1) "down" in
  enemies (fst (check_for_enemies demo_enemies (mkShot b1 [0%nat; 2%nat]))) =
    enemies (fst (check_for_enemies demo_enemies (mkShot b2 [0%nat; 2%nat]))) /\
  snd (check_for_enemies demo_enemies (mkShot b1 [0%nat; 2%nat])) =
    snd (check_for_enemies demo_enemies (mkShot b2 [0%nat; 2%nat])).
Proof.
  cbv zeta.
  destruct (bullet_frame example_coefficients example_speed demo_enemies)
    as (_ & _ & _ & H).
  apply H; reflexivity.
Defined.

(** The enemies removed are not those whose rect contains the position
    itself: at [(-1/2, -1/2)], which truncates to [(0, 0)], the enemy
    covering [0 <= x, y < 10] is removed though the position is outside
    its rect, and the enemy covering [-10 <= x, y < 0] is kept though the
    position is inside. *)
Lemma check_for_enemies_truncates_position :
  let b := Bullet_init (-1 # 2) (-1 # 2) "up" in
  contains_point (enemy_rect (edge_enemies 0%nat))
    (bullet_x b) (bullet_y b) = false /\
  contains_point (enemy_rect (edge_enemies 1%nat))
    (bullet_x b) (bullet_y b) = true /\
  check_for_enemies edge_enemies (mkShot b [0%nat; 1%nat]) =
  (mkShot b [1%nat], Ret 1).
Proof. cbv zeta. repeat split. Qed.

Lemma check_for_enemies_removes_hit_witness :
  let s := mkShot (Bullet_init 7 7 "up") [0%nat; 2%nat; 1%nat] in
  exists s',
    check_for_enemies demo_enemies s = (s', Ret 2) /\
    enemies s' = [2%nat] /\
    hits demo_enemies (self s) 1%nat =
      contains_point (enemy_rect (demo_enemies 1%nat)) 7 7.
Proof.
  cbv zeta.
  destruct (check_for_enemies_removes_hit demo_enemies
              (mkShot (Bullet_init 7 7 "up") [0%nat; 2%nat; 1%nat]))
    as (s' & Hrun & _ & Hl & _ & _ & _ & Hgeo).
  exists s'. split; [exact Hrun|]. split; [exact Hl|].
  apply Hgeo; discriminate.
Defined.

(** The examples of the specification. *)

Example check_for_enemies_one_hit :
  check_for_enemies demo_enemies (mkShot (Bullet_init 7 7 "up") [0%nat; 2%nat])
  = (mkShot (Bullet_init 7 7 "up") [2%nat], Ret 1).
Proof. reflexivity. Qed.

Example check_for_enemies_two_hits :
  check_for_enemies demo_enemies (mkShot (Bullet_init 7 7 "up") [0%nat; 1%nat])
  = (mkShot (Bullet_init 7 7 "up") [], Ret 2).
Proof. reflexivity. Qed.

Example ammo_token_scenario :
  let w := mkWorld demo_objs [1%nat] demo_player in
  center (p_rect (player w)) = (10, 10) /\
  exists w', collect 0 1%nat w = (w', Ret tt) /\
             ammo (player w') = ammo (player w) + 5 /\ tokens w' = [].
Proof. cbv zeta. split; [reflexivity|]. eexists. repeat split. Qed.

Example update_unsupported_direction :
  update example_coefficients example_speed
    (mkShot (Bullet_init 7 7 "north") []) =
  (mkShot (Bullet_init 7 7 "north") [], Raise KeyError).
Proof. reflexivity. Qed.

(** * Further properties of the token methods *)

Lemma remove_Some_inv (x : ref) (l l' : list ref) :
  PyList.remove x l = Some l' ->
  exists l1 l2, l = l1 ++ x :: l2 /\ ~ In x l1 /\ l' = l1 ++ l2.
Proof.
  intros Hrm. destruct (in_dec Nat.eq_dec x l) as [Hin|Hnot].
  - destruct (remove_In x l Hin) as (l1 & l2 & Hl & Hn & Hr).
    exists l1, l2. repeat split; [exact Hl | exact Hn | congruence].
  - rewrite remove_not_In in Hrm by exact Hnot. discriminate.
Qed.

Lemma remove_None_inv (x : ref) (l : list ref) :
  PyList.remove x l = None -> ~ In x l.
Proof.
  intros Hrm Hin. destruct (remove_In x l Hin) as (l1 & l2 & _ & _ & Hr).
  congruence.
Qed.

(** Every path through [collect]: the class, the guard of the power-ups,
    the overlap test and the removal. *)
Ltac collect_paths T w :=
  unfold collect, ScoreToken_collect, AmmoToken_collect,
    PowerUpToken_collect, tokens_remove, bind, gets, modify, ret;
  destruct (tok_class (objs w T)) eqn:Hclass;
  try destruct (power_up (player w)) eqn:Hpu;
  destruct (collides T w) eqn:Hhit;
  cbn [tokens player objs with_player with_objs with_tokens fst snd];
  try destruct (PyList.remove T (tokens w)) eqn:Hrm;
  cbn [tokens player objs with_player with_objs with_tokens fst snd
       score ammo power_up p_rect add_score add_ammo set_power_up].

(** X1. Whatever its outcome, [collect] changes the class, the position
    and the rect of no token, so a rect that sits at the truncated
    position stays there; the only attribute it can write is the
    [start_time] of the token it is called on, and only on the path where
    a power-up is taken. *)
Theorem collect_objects_frame (ticks : Z) (T r : ref) (w : World) :
  let w' := fst (collect ticks T w) in
  tok_class (objs w' r) = tok_class (objs w r) /\
  tok_x (objs w' r) = tok_x (objs w r) /\
  tok_y (objs w' r) = tok_y (objs w r) /\
  tok_rect (objs w' r) = tok_rect (objs w r) /\
  (start_time (objs w' r) = start_time (objs w r) \/
   r = T /\ (exists k, tok_class (objs w T) = PowerUpToken k) /\
   power_up (player w) = None /\ collides T w = true /\
   start_time (objs w' r) = Some ticks).
Proof.
  cbv zeta. collect_paths T w; try (repeat split; now left).
  all: unfold update_obj; destruct (Nat.eqb_spec r T) as [->|Hne];
    cbn [tok_class tok_x tok_y tok_rect start_time set_start_time];
    repeat split; try (now left); right; eauto 10.
Qed.

(** X2. Whatever its outcome, [collect] leaves the token list as it was or
    takes out one entry, the first occurrence of the token it is called
    on: it never removes another token, never adds one and never
    reorders; and an entry goes only on a path that returns. *)
Theorem collect_list_frame (ticks : Z) (T : ref) (w : World) :
  let w' := fst (collect ticks T w) in
  tokens w' = tokens w \/
  exists l1 l2,
    tokens w = l1 ++ T :: l2 /\ ~ In T l1 /\ tokens w' = l1 ++ l2 /\
    collides T w = true /\ snd (collect ticks T w) = Ret tt.
Proof.
  cbv zeta. collect_paths T w; try (now left).
  all: right; destruct (remove_Some_inv _ _ _ Hrm) as (l1 & l2 & Hl & Hn & ->);
    exists l1, l2; repeat split; assumption.
Qed.

(** X3. Whatever its outcome, [collect] moves the player nowhere; a score
    token touches neither the ammo nor the power-up slot and adds nothing
    or exactly 100; an ammo token touches neither the score nor the slot
    and adds nothing or exactly 5; a power-up touches neither score nor
    ammo and leaves the slot as it was or holding that token. *)
Theorem collect_player_frame (ticks : Z) (T : ref) (w : World) :
  let p := player w in
  let p' := player (fst (collect ticks T w)) in
  p_rect p' = p_rect p /\
  (tok_class (objs w T) = ScoreToken ->
   ammo p' = ammo p /\ power_up p' = power_up p /\
   (score p' = score p \/ score p' = score p + 100)) /\
  (tok_class (objs w T) = AmmoToken ->
   score p' = score p /\ power_up p' = power_up p /\
   (ammo p' = ammo p \/ ammo p' = ammo p + 5)) /\
  (forall k, tok_class (objs w T) = PowerUpToken k ->
   score p' = score p /\ ammo p' = ammo p /\
   (power_up p' = power_up p \/ power_up p' = Some T)).
Proof.
  cbv zeta. collect_paths T w.
  all: split; [reflexivity|]; split; [|split]; try discriminate.
  all: try (intros k' _); try (intros _).
  all: try rewrite Hpu; repeat split; auto.
Qed.

Lemma collect_player_frame_witness :
  score (player (fst (collect 0 0%nat demo_world))) = 100 /\
  ammo (player (fst (collect 0 0%nat demo_world))) =
    ammo (player demo_world) /\
  power_up (player (fst (collect 0 0%nat demo_world))) =
    power_up (player demo_world).
Proof.
  destruct (collect_player_frame 0 0%nat demo_world) as (_ & H & _).
  destruct (H eq_refl) as (Ha & Hp & _).
  split; [reflexivity|]. split; [exact Ha | exact Hp].
Defined.

(** X4. [collect] raises exactly when the rect of the token contains the
    player's centre, the token is not in the list and, for a power-up,
    the player's slot is empty; what it raises is the [ValueError] of
    [list.remove]; on every other input it returns. *)
Theorem collect_raises_iff (ticks : Z) (T : ref) (w : World) :
  (snd (collect ticks T w) = Ret tt \/
   snd (collect ticks T w) = Raise ValueError) /\
  (snd (collect ticks T w) = Raise ValueError <->
   collides T w = true /\ ~ In T (tokens w) /\
   (forall k, tok_class (objs w T) = PowerUpToken k ->
              power_up (player w) = None)).
Proof.
  collect_paths T w.
  all: split; [auto|]; split;
    [ try discriminate; intros _;
      (split; [reflexivity|]); (split; [now apply remove_None_inv|]);
      try discriminate; intros; reflexivity
    | intros (Hc & Hn & Hg); try discriminate Hc;
      try (specialize (Hg _ eq_refl); discriminate Hg);
      try (destruct (remove_Some_inv _ _ _ Hrm) as (l1 & l2 & Hl & _ & _);
           exfalso; apply Hn; rewrite Hl; apply in_elt);
      reflexivity ].
Qed.

Lemma collect_raises_iff_witness :
  snd (collect 0 0%nat stale_world) = Raise ValueError /\
  snd (collect 0 3%nat stale_world) = Ret tt.
Proof.
  destruct (collect_raises_iff 0 0%nat stale_world) as (_ & H).
  split; [|reflexivity].
  apply H. split; [reflexivity|]. split; [|discriminate].
  simpl. intros [Hx|[]]. discriminate Hx.
Defined.

Lemma collect_class_rect (ticks : Z) (T r : ref) (w : World) :
  tok_class (objs (fst (collect ticks T w)) r) = tok_class (objs w r) /\
  tok_rect (objs (fst (collect ticks T w)) r) = tok_rect (objs w r).
Proof.
  collect_paths T w; try (split; reflexivity).
  all: unfold update_obj; destruct (Nat.eqb r T); split; reflexivity.
Qed.

Lemma collects_class_rect (cs : list (Z * ref)) (r : ref) (w : World) :
  tok_class (objs (fst (collects cs w)) r) = tok_class (objs w r) /\
  tok_rect (objs (fst (collects cs w)) r) = tok_rect (objs w r).
Proof.
  revert w. induction cs as [|[t T] cs IH]; intros w; [split; reflexivity|].
  cbn [collects]. unfold bind.
  pose proof (collect_class_rect t T r w) as Hc.
  destruct (collect t T w) as [w1 [[]|e]]; cbn [fst] in *.
  - destruct (IH w1) as [-> ->]. exact Hc.
  - exact Hc.
Qed.

Lemma powerup_collect_state (ticks : Z) (T : ref) (k : PowerUp) (w : World) :
  tok_class (objs w T) = PowerUpToken k ->
  power_up (player w) = None ->
  In T (tokens w) ->
  collides T w = true ->
  exists l,
    collect ticks T w =
    (with_player (set_power_up T)
       (with_tokens l (with_objs (update_obj T (set_start_time ticks)) w)),
     Ret tt).
Proof.
  intros Hc Hpu Hin Hhit.
  destruct (remove_In T (tokens w) Hin) as (l1 & l2 & _ & _ & Hrm).
  exists (l1 ++ l2). unfold collect.
  rewrite Hc, PowerUpToken_collect_hit by assumption.
  unfold bind, tokens_remove, modify. simpl. now rewrite Hrm.
Qed.

(** X5. Once a power-up token has been collected, every later [collect]
    on a power-up token, the same one included, at whatever tick, returns
    without touching anything: the player keeps the token, and the
    [start_time] set at collection is never overwritten. *)
Theorem powerup_start_time_kept
  (t1 : Z) (T1 : ref) (k1 : PowerUp) (cs : list (Z * ref)) (w : World) :
  tok_class (objs w T1) = PowerUpToken k1 ->
  power_up (player w) = None ->
  In T1 (tokens w) ->
  collides T1 w = true ->
  Forall (fun c => exists k, tok_class (objs w (snd c)) = PowerUpToken k) cs ->
  let w1 := fst (collect t1 T1 w) in
  collects cs w1 = (w1, Ret tt) /\
  start_time (objs w1 T1) = Some t1 /\
  power_up (player w1) = Some T1.
Proof.
  intros Hc Hpu Hin Hhit Hcs. cbv zeta.
  destruct (powerup_collect_state t1 T1 k1 w Hc Hpu Hin Hhit) as (l & Hrun).
  assert (Hcls : forall r, tok_class (objs (fst (collect t1 T1 w)) r) =
                           tok_class (objs w r))
    by (intros r; apply collect_class_rect).
  rewrite Hrun in *. cbn [fst] in *.
  split; [|split].
  - induction Hcs as [|[t T2] cs [k2 Hk2] _ IH]; [reflexivity|].
    cbn [collects snd] in *. unfold bind.
    assert (Hstep : collect t T2
              (with_player (set_power_up T1)
                 (with_tokens l
                    (with_objs (update_obj T1 (set_start_time t1)) w))) =
            (with_player (set_power_up T1)
               (with_tokens l
                  (with_objs (update_obj T1 (set_start_time t1)) w)),
             Ret tt)).
    { unfold collect. rewrite Hcls, Hk2.
      unfold PowerUpToken_collect, bind, gets. reflexivity. }
    rewrite Hstep. exact IH.
  - simpl. now rewrite update_obj_same.
  - reflexivity.
Qed.

Lemma powerup_start_time_kept_witness :
  let w1 := fst (collect 1234 2%nat demo_world) in
  collects [(5000, 2%nat); (9000, 2%nat)] w1 = (w1, Ret tt) /\
  start_time (objs w1 2%nat) = Some 1234 /\
  power_up (player w1) = Some 2%nat.
Proof.
  apply (powerup_start_time_kept 1234 2%nat PUDoubleScore
           [(5000, 2%nat); (9000, 2%nat)] demo_world);
    try reflexivity.
  - simpl. auto.
  - repeat constructor; exists PUDoubleScore; reflexivity.
Defined.

(** X6. [check_for_completion] is monotone in the clock: once it has
    returned true at a tick it returns true at every later tick, and it
    never changes the state. *)
Theorem check_for_completion_monotone (t t' : Z) (T : ref) (w : World) :
  t <= t' ->
  snd (check_for_completion t T w) = Ret true ->
  check_for_completion t' T w = (w, Ret true).
Proof.
  intros Hle. unfold check_for_completion, bind, gets, raise, ret.
  destruct (start_time (objs w T)) as [t0|]; [|discriminate].
  destruct (30000 <=? t - t0) eqn:Ht; [|discriminate]. intros _.
  apply Z.leb_le in Ht.
  assert (H' : (30000 <=? t' - t0) = true) by (apply Z.leb_le; lia).
  now rewrite H'.
Qed.

Lemma check_for_completion_monotone_witness :
  let w1 := fst (collect 1234 2%nat demo_world) in
  check_for_completion 99999 2%nat w1 = (w1, Ret true).
Proof.
  cbv zeta.
  apply (check_for_completion_monotone 31234 99999); [lia | reflexivity].
Defined.

(** X7. A token built by [__init__] at a location is drawn with the image
    of its class at the truncated location, whatever [collect] calls were
    made in between, on whatever tokens and with whatever outcome; [draw]
    adds that one blit and changes nothing else. *)
Theorem token_drawn_where_created
  (cs : list (Z * ref)) (r : ref) (c : TokenClass) (location : Q * Q)
  (img_w img_h : Z) (w : World) (screen : list draw_cmd) :
  objs w r = Token_init c location img_w img_h ->
  let w' := fst (collects cs w) in
  Token_draw r (w', screen) =
  ((w', screen ++
        [Blit (Token_image c)
              (mkRect (int (fst location)) (int (snd location)) img_w img_h)]),
   Ret tt).
Proof.
  intros Hnew. cbv zeta. unfold Token_draw, emit. cbn [fst snd].
  destruct (collects_class_rect cs r w) as [-> ->].
  now rewrite Hnew.
Qed.

Lemma token_drawn_where_created_witness :
  let w' := fst (collects [(0, 0%nat); (7, 2%nat); (9, 1%nat)] demo_world) in
  Token_draw 2%nat (w', []) =
  ((w', [Blit "assets/token_icons/powerup_icon.png" (mkRect 10 10 16 16)]),
   Ret tt).
Proof.
  cbv zeta.
  apply (token_drawn_where_created [(0, 0%nat); (7, 2%nat); (9, 1%nat)]
           2%nat (PowerUpToken PUDoubleScore) (10, 10)%Q 16 16 demo_world []).
  reflexivity.
Defined.

(** * Further properties of the bullet methods *)

Section BulletMore.
Variable MC : gmap string (Q * Q).   (* MOVEMENT_COEFFICIENTS *)
Variable SPEED : Q.                  (* BULLET_SPEED *)
Variable EN : ref -> Enemy.          (* the enemy objects *)

(** X8. [update] raises exactly when the direction of the bullet is not a
    key of the table; what it raises is the [KeyError] of the lookup, and
    it raises before the first assignment: the bullet and the list are as
    they were. *)
Theorem update_raises_iff (s : Shot) :
  (snd (update MC SPEED s) = Ret tt \/
   snd (update MC SPEED s) = Raise KeyError) /\
  (snd (update MC SPEED s) = Raise KeyError <->
   MC !! direction (self s) = None) /\
  (snd (update MC SPEED s) = Raise KeyError -> fst (update MC SPEED s) = s).
Proof.
  destruct (MC !! direction (self s)) as [c|] eqn:Hd.
  - rewrite (update_supported MC SPEED c) by exact Hd. cbn [fst snd].
    split; [now left|]. split; [split|]; discriminate.
  - rewrite update_unsupported by exact Hd. cbn [fst snd].
    split; [now right|]. split; [split|]; reflexivity.
Qed.

(** X9. A bullet whose direction is a key of the table never raises: every
    sequence of [update] and [check_for_enemies] calls, on whatever lists,
    runs to its end. *)
Theorem run_never_raises (cs : list call) (c : Q * Q) (s : Shot) :
  MC !! direction (self s) = Some c ->
  snd (run MC SPEED EN cs s) = Ret tt.
Proof.
  revert s. induction cs as [|k cs IH]; intros s Hd; [reflexivity|].
  cbn [run]. unfold bind. destruct k as [|l]; cbn [do_call].
  - rewrite (update_supported MC SPEED c) by exact Hd. now apply IH.
  - unfold bind, modify. rewrite check_for_enemies_spec. unfold ret.
    now apply IH.
Qed.

(** X10. [check_for_enemies] conserves the enemies: the number returned
    and the length of the list left add up to the length of the list
    given; the number is never negative, and is zero on an empty list. *)
Theorem check_for_enemies_conserves (s : Shot) :
  exists kills,
    snd (check_for_enemies EN s) = Ret kills /\
    0 <= kills /\
    kills + Z.of_nat (length (enemies (fst (check_for_enemies EN s)))) =
      Z.of_nat (length (enemies s)) /\
    (enemies s = [] -> kills = 0).
Proof.
  rewrite check_for_enemies_spec. cbn [fst snd enemies with_enemies].
  eexists. split; [reflexivity|]. split; [lia|]. split.
  - rewrite <- Nat2Z.inj_add. f_equal.
    induction (enemies s) as [|e l IH]; [reflexivity|].
    simpl. destruct (hits EN (self s) e); simpl; lia.
  - intros ->. reflexivity.
Qed.

(** X11. Called again on the list it has just cleaned, without a move in
    between, [check_for_enemies] finds nothing: it returns zero and the
    list stays as it is. *)
Theorem check_for_enemies_twice (s : Shot) :
  let s1 := fst (check_for_enemies EN s) in
  check_for_enemies EN s1 = (s1, Ret 0).
Proof.
  cbv zeta. rewrite !check_for_enemies_spec.
  cbn [fst self enemies with_enemies].
  assert (Hkeep : forall l,
    List.filter (fun e => negb (hits EN (self s) e))
      (List.filter (fun e => negb (hits EN (self s) e)) l) =
    List.filter (fun e => negb (hits EN (self s) e)) l).
  { induction l as [|e l IH]; [reflexivity|]. simpl.
    destruct (hits EN (self s) e) eqn:He; simpl; [exact IH|].
    rewrite He. simpl. now rewrite IH. }
  assert (Hnone : forall l,
    List.filter (hits EN (self s))
      (List.filter (fun e => negb (hits EN (self s) e)) l) = []).
  { induction l as [|e l IH]; [reflexivity|]. simpl.
    destruct (hits EN (self s) e) eqn:He; simpl; [exact IH|].
    now rewrite He. }
  unfold with_enemies. cbn [self enemies]. now rewrite Hkeep, Hnone.
Qed.




End BulletMore.

Lemma update_raises_iff_witness :
  fst (update example_coefficients example_speed
         (mkShot (Bullet_init 7 7 "north") [4%nat])) =
  mkShot (Bullet_init 7 7 "north") [4%nat].
Proof.
  destruct (update_raises_iff example_coefficients example_speed
              (mkShot (Bullet_init 7 7 "north") [4%nat])) as (_ & Hiff & H).
  apply H, Hiff. reflexivity.
Defined.

Lemma run_never_raises_witness :
  snd (run example_coefficients example_speed demo_enemies
         [Update; CheckForEnemies [0%nat; 2%nat]; Update]
         (mkShot (Bullet_init 7 7 "up") [])) = Ret tt.
Proof.
  apply (run_never_raises example_coefficients example_speed demo_enemies
           [Update; CheckForEnemies [0%nat; 2%nat]; Update] (0, -1)%Q).
  reflexivity.
Defined.



(** * Calls of [collect] in a row *)

Lemma remove_comm (x y : ref) (l lx ly : list ref) :
  x <> y ->
  PyList.remove x l = Some lx ->
  PyList.remove y l = Some ly ->
  exists l', PyList.remove y lx = Some l' /\ PyList.remove x ly = Some l'.
Proof.
  intros Hne. revert lx ly.
  induction l as [|z l IH]; intros lx ly; simpl; [discriminate|].
  destruct (Nat.eqb_spec z x) as [Hzx|Hzx];
    destruct (Nat.eqb_spec z y) as [Hzy|Hzy]; try congruence; subst.
  - intros Hx Hy. injection Hx as <-.
    destruct (PyList.remove y l) as [r|] eqn:Hr; [|discriminate].
    injection Hy as <-. exists r. simpl. rewrite Nat.eqb_refl.
    split; auto.
  - intros Hx Hy. injection Hy as <-.
    destruct (PyList.remove x l) as [r|] eqn:Hr; [|discriminate].
    injection Hx as <-. exists r. simpl. rewrite Nat.eqb_refl.
    split; auto.
  - intros Hx Hy.
    destruct (PyList.remove x l) as [rx|] eqn:Hrx; [|discriminate].
    destruct (PyList.remove y l) as [ry|] eqn:Hry; [|discriminate].
    injection Hx as <-. injection Hy as <-.
    destruct (IH rx ry eq_refl eq_refl) as (l' & H1 & H2).
    exists (z :: l'). simpl.
    destruct (Nat.eqb_spec z x); [congruence|].
    destruct (Nat.eqb_spec z y); [congruence|].
    now rewrite H1, H2.
Qed.

Lemma remove_NoDup (x : ref) (l l' : list ref) :
  List.NoDup l -> PyList.remove x l = Some l' -> ~ In x l'.
Proof.
  intros Hnd Hrm.
  destruct (remove_Some_inv _ _ _ Hrm) as (l1 & l2 & -> & _ & ->).
  now apply List.NoDup_remove_2.
Qed.

(** The reward of a score or ammo token, as its [collect] applies it. *)
Lemma reward_collect (ticks : Z) (T : ref) (w : World) (l : list ref) :
  tok_class (objs w T) = ScoreToken \/ tok_class (objs w T) = AmmoToken ->
  collides T w = true ->
  PyList.remove T (tokens w) = Some l ->
  exists f,
    (tok_class (objs w T) = ScoreToken /\ f = add_score 100 \/
     tok_class (objs w T) = AmmoToken /\ f = add_ammo 5) /\
    collect ticks T w = (with_tokens l (with_player f w), Ret tt).
Proof.
  intros [Hc|Hc] Hhit Hrm.
  - exists (add_score 100). split; [now left|]. unfold collect.
    rewrite Hc, ScoreToken_collect_hit by assumption.
    unfold tokens_remove. simpl. now rewrite Hrm.
  - exists (add_ammo 5). split; [now right|]. unfold collect.
    rewrite Hc, AmmoToken_collect_hit by assumption.
    unfold tokens_remove. simpl. now rewrite Hrm.
Qed.

(** X14. Two different score or ammo tokens under the player can be
    collected in either order: both calls return in both orders, and the
    two orders end in the same state: the same token list, without either
    token when the list had no duplicates, and the same player. *)
Theorem collect_two_commute (t1 t2 : Z) (T1 T2 : ref) (w : World) :
  T1 <> T2 ->
  In T1 (tokens w) -> In T2 (tokens w) ->
  tok_class (objs w T1) = ScoreToken \/ tok_class (objs w T1) = AmmoToken ->
  tok_class (objs w T2) = ScoreToken \/ tok_class (objs w T2) = AmmoToken ->
  collides T1 w = true -> collides T2 w = true ->
  exists w',
    collects [(t1, T1); (t2, T2)] w = (w', Ret tt) /\
    collects [(t2, T2); (t1, T1)] w = (w', Ret tt) /\
    (List.NoDup (tokens w) -> ~ In T1 (tokens w') /\ ~ In T2 (tokens w')).
Proof.
  intros Hne Hin1 Hin2 Hc1 Hc2 Hhit1 Hhit2.
  destruct (remove_In T1 (tokens w) Hin1) as (a1 & a2 & Hl1 & Hn1 & Hrm1).
  destruct (remove_In T2 (tokens w) Hin2) as (b1 & b2 & Hl2 & Hn2 & Hrm2).
  destruct (remove_comm T1 T2 _ _ _ Hne Hrm1 Hrm2) as (l' & Hr12 & Hr21).
  destruct (reward_collect t1 T1 w _ Hc1 Hhit1 Hrm1) as (f1 & Hf1 & Hrun1).
  destruct (reward_collect t2 T2 w _ Hc2 Hhit2 Hrm2) as (f2 & Hf2 & Hrun2).
  assert (Hrect : forall f, f = add_score 100 \/ f = add_ammo 5 ->
                            forall p, p_rect (f p) = p_rect p).
  { intros f [->| ->] p; reflexivity. }
  assert (Hf1' : f1 = add_score 100 \/ f1 = add_ammo 5) by tauto.
  assert (Hf2' : f2 = add_score 100 \/ f2 = add_ammo 5) by tauto.
  destruct (reward_collect t2 T2
              (with_tokens (a1 ++ a2) (with_player f1 w)) l')
    as (g2 & Hg2 & Hrun12).
  { exact Hc2. }
  { unfold collides in *. simpl. now rewrite Hrect. }
  { exact Hr12. }
  destruct (reward_collect t1 T1
              (with_tokens (b1 ++ b2) (with_player f2 w)) l')
    as (g1 & Hg1 & Hrun21).
  { exact Hc1. }
  { unfold collides in *. simpl. now rewrite Hrect. }
  { exact Hr21. }
  cbn [objs with_tokens with_player] in Hg1, Hg2.
  exists (with_tokens l' (with_player g2
            (with_tokens (a1 ++ a2) (with_player f1 w)))).
  split; [|split].
  - cbn [collects]. unfold bind. rewrite Hrun1, Hrun12. reflexivity.
  - cbn [collects]. unfold bind. rewrite Hrun2, Hrun21. unfold ret.
    f_equal. unfold with_tokens, with_player. cbn [objs tokens player].
    f_equal.
    destruct Hf1 as [[E1 ->]|[E1 ->]], Hf2 as [[E2 ->]|[E2 ->]],
             Hg1 as [[E3 ->]|[E3 ->]], Hg2 as [[E4 ->]|[E4 ->]];
      try congruence; reflexivity.
  - intros Hnd. cbn [tokens with_tokens].
    pose proof (remove_NoDup T1 _ _ Hnd Hrm1) as H1.
    pose proof (remove_NoDup T2 _ _ Hnd Hrm2) as H2.
    destruct (remove_Some_inv _ _ _ Hr12) as (c1 & c2 & Hc & _ & ->).
    destruct (remove_Some_inv _ _ _ Hr21) as (d1 & d2 & Hd & _ & Hcd).
    split.
    + intros Hin. apply H1. rewrite Hc.
      apply in_app_or in Hin. apply in_or_app.
      destruct Hin; [now left | right; now right].
    + intros Hin. apply H2. rewrite Hd. rewrite Hcd in Hin.
      apply in_app_or in Hin. apply in_or_app.
      destruct Hin; [now left | right; now right].
Qed.

Lemma collect_two_commute_witness :
  exists w',
    collects [(0, 0%nat); (5, 1%nat)] demo_world = (w', Ret tt) /\
    collects [(5, 1%nat); (0, 0%nat)] demo_world = (w', Ret tt).
Proof.
  destruct (collect_two_commute 0 5 0%nat 1%nat demo_world)
    as (w' & Ha & Hb & _).
  - discriminate.
  - simpl. auto.
  - simpl. auto.
  - now left.
  - now right.
  - reflexivity.
  - reflexivity.
  - now exists w'.
Defined.

(** X15. [collect] is not idempotent on a score or ammo token: called a
    second time on a token it has just taken out of a duplicate-free
    list, with the player still on it, it raises the [ValueError] of the
    removal after rewarding the player a second time. *)
Theorem collect_twice_rewards_twice (t1 t2 : Z) (T : ref) (w : World) :
  List.NoDup (tokens w) ->
  In T (tokens w) ->
  collides T w = true ->
  (tok_class (objs w T) = ScoreToken ->
   exists w',
     collects [(t1, T); (t2, T)] w = (w', Raise ValueError) /\
     score (player w') = score (player w) + 200 /\
     ~ In T (tokens w')) /\
  (tok_class (objs w T) = AmmoToken ->
   exists w',
     collects [(t1, T); (t2, T)] w = (w', Raise ValueError) /\
     ammo (player w') = ammo (player w) + 10 /\
     ~ In T (tokens w')).
Proof.
  intros Hnd Hin Hhit.
  destruct (remove_In T (tokens w) Hin) as (l1 & l2 & Hl & Hn & Hrm).
  pose proof (remove_NoDup T _ _ Hnd Hrm) as Hgone.
  pose proof (remove_not_In T _ Hgone) as Hrm2.
  split; intros Hc.
  - exists (with_player (add_score 100)
              (with_tokens (l1 ++ l2) (with_player (add_score 100) w))).
    split; [|split; [simpl; lia | exact Hgone]].
    cbn [collects]. unfold bind, collect at 1.
    rewrite Hc, ScoreToken_collect_hit by assumption.
    unfold tokens_remove at 1. cbn [tokens with_player]. rewrite Hrm.
    unfold collect. cbn [objs with_tokens with_player]. rewrite Hc.
    rewrite ScoreToken_collect_hit by exact Hhit.
    unfold tokens_remove. cbn [tokens with_tokens with_player].
    now rewrite Hrm2.
  - exists (with_player (add_ammo 5)
              (with_tokens (l1 ++ l2) (with_player (add_ammo 5) w))).
    split; [|split; [simpl; lia | exact Hgone]].
    cbn [collects]. unfold bind, collect at 1.
    rewrite Hc, AmmoToken_collect_hit by assumption.
    unfold tokens_remove at 1. cbn [tokens with_player]. rewrite Hrm.
    unfold collect. cbn [objs with_tokens with_player]. rewrite Hc.
    rewrite AmmoToken_collect_hit by exact Hhit.
    unfold tokens_remove. cbn [tokens with_tokens with_player].
    now rewrite Hrm2.
Qed.

Lemma collect_twice_rewards_twice_witness :
  exists w',
    collects [(0, 0%nat); (1, 0%nat)] demo_world = (w', Raise ValueError) /\
    score (player w') = 200.
Proof.
  destruct (collect_twice_rewards_twice 0 1 0%nat demo_world) as (H & _).
  - repeat constructor; simpl; intuition discriminate.
  - simpl. auto.
  - reflexivity.
  - destruct (H eq_refl) as (w' & Hrun & Hs & _). now exists w'.
Defined.

Lemma check_for_enemies_conserves_witness :
  exists kills,
    snd (check_for_enemies demo_enemies (mkShot (Bullet_init 7 7 "up") [])) =
      Ret kills /\
    kills = 0.
Proof.
  destruct (check_for_enemies_conserves demo_enemies
              (mkShot (Bullet_init 7 7 "up") []))
    as (kills & Hrun & _ & _ & Hnil).
  exists kills. split; [exact Hrun | now apply Hnil].
Defined.

(** X16. The labels returned by [__str__] tell the four power-up classes
    apart: two power-ups have the same label exactly when they are of the
    same class. *)
Theorem PowerUp_labels_distinct (k1 k2 : PowerUp) :
  PowerUp_str k1 = PowerUp_str k2 <-> k1 = k2.
Proof.
  split; [|now intros ->].
  destruct k1, k2; simpl; intros H; (reflexivity || discriminate H).
Qed.

Lemma PowerUp_labels_distinct_witness :
  PUDoubleScore <> PUPiercingAmmo /\
  PowerUp_str PUDoubleScore <> PowerUp_str PUPiercingAmmo.
Proof.
  split; [discriminate|].
  intros H. apply (PowerUp_labels_distinct PUDoubleScore PUPiercingAmmo) in H.
  discriminate H.
Defined.

(** * The position after [N] updates, in binary64 *)

(** [value] on floats that are integers or binary fractions. *)
Example value_examples :
  (exists q, Binary64.value 7%float = Some q /\ (q == 7)%Q) /\
  (exists q, Binary64.value (-3)%float = Some q /\ (q == -3)%Q) /\
  (exists q, Binary64.value (1 / 4)%float = Some q /\ (q == 1 # 4)%Q) /\
  Binary64.value (1 / 0)%float = None.
Proof. repeat split; eexists; split; reflexivity. Qed.

Lemma exact_add_value (a b : float) :
  Binary64.exact_add a b = true ->
  exists qa qb qs,
    Binary64.value a = Some qa /\ Binary64.value b = Some qb /\
    Binary64.value (a + b)%float = Some qs /\ (qs == qa + qb)%Q.
Proof.
  unfold Binary64.exact_add.
  destruct (Binary64.value a) as [qa|]; [|discriminate].
  destruct (Binary64.value b) as [qb|]; [|discriminate].
  destruct (Binary64.value (a + b)%float) as [qs|]; [|discriminate].
  intros H. exists qa, qb, qs. repeat split. now apply Qeq_bool_iff.
Qed.

Lemma exact_mul_value (a b : float) :
  Binary64.exact_mul a b = true ->
  exists qa qb qp,
    Binary64.value a = Some qa /\ Binary64.value b = Some qb /\
    Binary64.value (a * b)%float = Some qp /\ (qp == qa * qb)%Q.
Proof.
  unfold Binary64.exact_mul.
  destruct (Binary64.value a) as [qa|]; [|discriminate].
  destruct (Binary64.value b) as [qb|]; [|discriminate].
  destruct (Binary64.value (a * b)%float) as [qp|]; [|discriminate].
  intros H. exists qa, qb, qp. repeat split. now apply Qeq_bool_iff.
Qed.

(** Adding [s] to [x0], [N] times, while no addition rounds. *)
Lemma iter_add_exact (N : nat) (s x0 : float) (q0 qs : Q) :
  Binary64.value x0 = Some q0 ->
  Binary64.value s = Some qs ->
  (forall k, (k < N)%nat ->
     Binary64.exact_add (Nat.iter k (fun x => (x + s)%float) x0) s = true) ->
  exists qN,
    Binary64.value (Nat.iter N (fun x => (x + s)%float) x0) = Some qN /\
    (qN == q0 + inject_Z (Z.of_nat N) * qs)%Q.
Proof.
  intros H0 Hs. induction N as [|N IH]; intros Hex.
  - exists q0. split; [exact H0|]. simpl. ring.
  - destruct IH as (qN & HN & HqN); [intros k Hk; apply Hex; lia|].
    destruct (exact_add_value _ _ (Hex N (Nat.lt_succ_diag_r N)))
      as (qa & qb & qsum & Ha & Hb & Hsum & Hq).
    rewrite HN in Ha. injection Ha as <-.
    rewrite Hs in Hb. injection Hb as <-.
    exists qsum. cbn [Nat.iter]. split; [exact Hsum|].
    rewrite Hq, HqN, Nat2Z.inj_succ. unfold Z.succ.
    rewrite inject_Z_plus. simpl. ring.
Qed.

Section Binary64Facts.
Variable MC : gmap string (float * float).   (* MOVEMENT_COEFFICIENTS *)
Variable SPEED : float.                      (* BULLET_SPEED *)

Lemma binary64_update_supported (c : float * float) (b : Binary64.Bullet) :
  MC !! Binary64.direction b = Some c ->
  Binary64.update MC SPEED b =
  (Binary64.mkBullet
     (Binary64.bullet_x b + fst c * SPEED)%float
     (Binary64.bullet_y b + snd c * SPEED)%float
     (Binary64.bullet_rect b) (Binary64.direction b),
   Ret tt).
Proof.
  intros Hd.
  unfold Binary64.update, Binary64.coefficients, bind, gets, modify, ret.
  rewrite Hd. cbn [Binary64.direction Binary64.set_x]. now rewrite Hd.
Qed.

Lemma binary64_times_update (N : nat) (c : float * float) (b : Binary64.Bullet) :
  MC !! Binary64.direction b = Some c ->
  times N (Binary64.update MC SPEED) b =
  (Binary64.mkBullet
     (Nat.iter N (fun x => (x + fst c * SPEED)%float) (Binary64.bullet_x b))
     (Nat.iter N (fun y => (y + snd c * SPEED)%float) (Binary64.bullet_y b))
     (Binary64.bullet_rect b) (Binary64.direction b),
   Ret tt).
Proof.
  revert b. induction N as [|N IH]; intros b Hd.
  - now destruct b.
  - cbn [times]. unfold bind.
    rewrite (binary64_update_supported c) by exact Hd.
    rewrite IH by exact Hd.
    cbn [Binary64.bullet_x Binary64.bullet_y Binary64.bullet_rect
         Binary64.direction].
    now rewrite !Nat.iter_succ_r.
Qed.

(** C7, as the code has it.  For a direction [D] of the table, [N] calls
    of [update] all return and leave each coordinate at its initial value
    with the float product of the coefficient and the speed added [N]
    times, each sum rounded to binary64; the coordinate is the initial
    one plus [N] times the product of speed and coefficient when that
    product and the [N] sums are exact. *)
Theorem update_n_times_binary64
  (N : nat) (D : string) (c : float * float) (b : Binary64.Bullet) :
  Binary64.direction b = D ->
  MC !! D = Some c ->
  let sx := (fst c * SPEED)%float in
  let sy := (snd c * SPEED)%float in
  let x0 := Binary64.bullet_x b in
  let y0 := Binary64.bullet_y b in
  exists b',
    times N (Binary64.update MC SPEED) b = (b', Ret tt) /\
    Binary64.bullet_x b' = Nat.iter N (fun x => (x + sx)%float) x0 /\
    Binary64.bullet_y b' = Nat.iter N (fun y => (y + sy)%float) y0 /\
    (forall q0 : Q,
       Binary64.value x0 = Some q0 ->
       Binary64.exact_mul (fst c) SPEED = true ->
       (forall k, (k < N)%nat ->
          Binary64.exact_add (Nat.iter k (fun x => (x + sx)%float) x0) sx
          = true) ->
       exists qc qs qN,
         Binary64.value (fst c) = Some qc /\
         Binary64.value SPEED = Some qs /\
         Binary64.value (Binary64.bullet_x b') = Some qN /\
         (qN == q0 + inject_Z (Z.of_nat N) * (qs * qc))%Q) /\
    (forall q0 : Q,
       Binary64.value y0 = Some q0 ->
       Binary64.exact_mul (snd c) SPEED = true ->
       (forall k, (k < N)%nat ->
          Binary64.exact_add (Nat.iter k (fun y => (y + sy)%float) y0) sy
          = true) ->
       exists qc qs qN,
         Binary64.value (snd c) = Some qc /\
         Binary64.value SPEED = Some qs /\
         Binary64.value (Binary64.bullet_y b') = Some qN /\
         (qN == q0 + inject_Z (Z.of_nat N) * (qs * qc))%Q).
Proof.
  intros HD Hd. cbv zeta. subst D.
  eexists. split; [now apply (binary64_times_update N c)|].
  cbn [Binary64.bullet_x Binary64.bullet_y].
  split; [reflexivity|]. split; [reflexivity|]. split.
  - intros q0 H0 Hmul Hadd.
    destruct (exact_mul_value _ _ Hmul) as (qc & qs & qp & Hc & Hs & Hp & Hq).
    destruct (iter_add_exact N _ _ q0 qp H0 Hp Hadd) as (qN & HN & HqN).
    exists qc, qs, qN. repeat split; try assumption.
    rewrite HqN, Hq. ring.
  - intros q0 H0 Hmul Hadd.
    destruct (exact_mul_value _ _ Hmul) as (qc & qs & qp & Hc & Hs & Hp & Hq).
    destruct (iter_add_exact N _ _ q0 qp H0 Hp Hadd) as (qN & HN & HqN).
    exists qc, qs, qN. repeat split; try assumption.
    rewrite HqN, Hq. ring.
Qed.

End Binary64Facts.

(** The closed form of C7 fails in binary64: a bullet created at
    [(1/3, 1/3)] and moved right twice at speed ten is at
    [x = 20.333333333333336], one float above [1/3 + 2 * (10 * 1)],
    whether the right-hand side is computed in floats or exactly. *)
Lemma update_twice_rounds :
  let b := Binary64.mkBullet (1 / 3) (1 / 3) (mkRect (-1) (-1) 4 4) "right" in
  let r := times 2 (Binary64.update Binary64.example_coefficients
                      Binary64.example_speed) b in
  let x2 := Binary64.bullet_x (fst r) in
  snd r = Ret tt /\
  Binary64.example_coefficients !! "right" = Some (1, 0)%float /\
  PrimFloat.eqb x2 (1 / 3 + 2 * (10 * 1))%float = false /\
  exists q0 qs qc q2,
    Binary64.value (1 / 3)%float = Some q0 /\
    Binary64.value Binary64.example_speed = Some qs /\
    Binary64.value 1%float = Some qc /\
    Binary64.value x2 = Some q2 /\
    Qeq_bool q2 (q0 + 2 * (qs * qc)) = false.
Proof.
  cbv zeta. split; [reflexivity|]. split; [reflexivity|].
  split; [reflexivity|].
  do 4 eexists. repeat split; try reflexivity.
Qed.

Lemma update_n_times_binary64_witness :
  let b := Binary64.mkBullet 7 7 (mkRect 5 5 4 4) "up" in
  exists b',
    times 3 (Binary64.update Binary64.example_coefficients
               Binary64.example_speed) b = (b', Ret tt) /\
    exists q0 qc qs qN,
      Binary64.value 7%float = Some q0 /\
      Binary64.value (-1)%float = Some qc /\
      Binary64.value Binary64.example_speed = Some qs /\
      Binary64.value (Binary64.bullet_y b') = Some qN /\
      (qN == q0 + inject_Z 3 * (qs * qc))%Q.
Proof.
  cbv zeta.
  destruct (update_n_times_binary64 Binary64.example_coefficients
              Binary64.example_speed 3 "up" (0, -1)%float
              (Binary64.mkBullet 7 7 (mkRect 5 5 4 4) "up")
              eq_refl eq_refl)
    as (b' & Hrun & _ & _ & _ & Hy).
  exists b'. split; [exact Hrun|].
  assert (H0 : exists q0, Binary64.value 7%float = Some q0)
    by (eexists; reflexivity).
  destruct H0 as (q0 & H0).
  destruct (Hy q0 H0 eq_refl) as (qc & qs & qN & Hc & Hs & HN & Hq).
  - intros k Hk. destruct k as [|[|[|k]]]; [reflexivity .. | lia].
  - exists q0, qc, qs, qN. split; [exact H0|].
    split; [exact Hc|]. split; [exact Hs|]. split; [exact HN | exact Hq].
Defined.
